(** * arcgis-rest-js: the request dispatcher of [rest-request]

    A shallow embedding of [packages/rest-request/src/request.ts] and of the
    helpers it calls, with the properties of the dispatcher proved about it.

    Conventions of the embedding.
    - A JavaScript string is a [string]: the sequence of the bytes of its
      UTF-8 form.
    - A JavaScript number is a [Z] (the integral numbers are the ones the
      REST parameters and error codes use).
    - A plain object is the list of its own properties in creation order;
      [ownEntries] gives the order in which JavaScript enumerates them.
    - A promise is the settled result it ends in, paired with the calls
      (token resolution, [fetch]) made on the way, in order. *)

From Stdlib Require Import String Ascii List ZArith NArith Bool DecimalString
  Permutation.
Import ListNotations.
Open Scope string_scope.

(** ** JavaScript values *)

#[local] Set Warnings "-register-all".

Inductive Value : Type :=
| VUndefined
| VNull
| VBool (b : bool)
| VNum (n : Z)
| VStr (s : string)
| VBlob (content : string)
| VArr (elems : list Value)
| VObj (members : list (string * Value)).

(** A plain object: own enumerable string-keyed properties, oldest first. *)
Definition JsObject := list (string * Value).

Module Obj.

Section Properties.
Context {A : Type}.

(** [o[k]]: the value of the own property [k], if there is one. *)
Fixpoint get (k : string) (o : list (string * A)) : option A :=
  match o with
  | [] => None
  | (k', v) :: rest => if String.eqb k k' then Some v else get k rest
  end.

(** [o[k] = v]: an existing property keeps its place, a new one is
    created last. *)
Fixpoint set (k : string) (v : A) (o : list (string * A)) : list (string * A) :=
  match o with
  | [] => [(k, v)]
  | (k', v') :: rest =>
      if String.eqb k k' then (k', v) :: rest else (k', v') :: set k v rest
  end.

Definition digit_of (c : ascii) : option N :=
  let n := N_of_ascii c in
  if ((48 <=? n) && (n <=? 57))%N then Some (n - 48)%N else None.

Fixpoint parseDigits (acc : N) (s : string) : option N :=
  match s with
  | EmptyString => Some acc
  | String c r =>
      match digit_of c with
      | Some d => parseDigits (10 * acc + d)%N r
      | None => None
      end
  end.

(** An array index: the canonical decimal form of an integer below
    2^32 - 1.  JavaScript enumerates these keys first, in numeric order. *)
Definition arrayIndex (k : string) : option N :=
  match k with
  | EmptyString => None
  | String c r =>
      if Ascii.eqb c "0" && negb (String.eqb r "") then None
      else match parseDigits 0 k with
           | Some n => if (n <? 2 ^ 32 - 1)%N then Some n else None
           | None => None
           end
  end.

Fixpoint insertIndexed (i : N) (e : string * A)
         (l : list (N * (string * A))) : list (N * (string * A)) :=
  match l with
  | [] => [(i, e)]
  | (j, e') :: rest =>
      if (i <=? j)%N then (i, e) :: l else (j, e') :: insertIndexed i e rest
  end.

Fixpoint indexed (o : list (string * A)) : list (N * (string * A)) :=
  match o with
  | [] => []
  | (k, v) :: rest =>
      match arrayIndex k with
      | Some i => insertIndexed i (k, v) (indexed rest)
      | None => indexed rest
      end
  end.

Fixpoint named (o : list (string * A)) : list (string * A) :=
  match o with
  | [] => []
  | (k, v) :: rest =>
      match arrayIndex k with
      | Some _ => named rest
      | None => (k, v) :: named rest
      end
  end.

(** The enumeration order of [Object.keys], [for-in] and object spread:
    array-index keys in ascending order, then the others as created. *)
Definition ownEntries (o : list (string * A)) : list (string * A) :=
  (map snd (indexed o) ++ named o)%list.

(** [{...target, ...source}] once [target] is built: each own property
    of [source], in enumeration order, is assigned to the new object. *)
Definition assign (target source : list (string * A)) : list (string * A) :=
  fold_left (fun acc kv => set (fst kv) (snd kv) acc) (ownEntries source) target.

End Properties.

End Obj.

(** ** Text of a value *)

Fixpoint join (sep : string) (parts : list string) : string :=
  match parts with
  | [] => ""
  | [p] => p
  | p :: rest => p ++ sep ++ join sep rest
  end.

Definition numberText (n : Z) : string := NilZero.string_of_int (Z.to_int n).

(** JavaScript's [String(v)]. *)
Fixpoint ToString (v : Value) : string :=
  match v with
  | VUndefined => "undefined"
  | VNull => "null"
  | VBool true => "true"
  | VBool false => "false"
  | VNum n => numberText n
  | VStr s => s
  | VBlob _ => "[object Blob]"
  | VArr es =>
      join "," (map (fun e => match e with
                              | VUndefined | VNull => ""
                              | _ => ToString e
                              end) es)
  | VObj _ => "[object Object]"
  end.

Definition hexDigit (upper : bool) (n : N) : ascii :=
  if (n <? 10)%N then ascii_of_N (48 + n)
  else ascii_of_N ((if upper then 55 else 87) + n).

Definition hexPair (upper : bool) (c : ascii) : string :=
  let n := N_of_ascii c in
  String (hexDigit upper (n / 16)) (String (hexDigit upper (n mod 16)) "").

(** JSON's quoting of a string. *)
Fixpoint jsonEscape (s : string) : string :=
  match s with
  | EmptyString => ""
  | String c r =>
      let n := N_of_ascii c in
      (if (n =? 34)%N then "\" ++ String c ""
       else if (n =? 92)%N then "\\"
       else if (n =? 8)%N then "\b"
       else if (n =? 9)%N then "\t"
       else if (n =? 10)%N then "\n"
       else if (n =? 12)%N then "\f"
       else if (n =? 13)%N then "\r"
       else if (n <? 32)%N then "\u00" ++ hexPair false c
       else String c "") ++ jsonEscape r
  end.

Definition jsonQuote (s : string) : string :=
  String (ascii_of_N 34) (jsonEscape s ++ String (ascii_of_N 34) "").

(** [JSON.stringify]: [None] stands for its [undefined] result.  A member
    whose value has no JSON text is left out of an object and written
    [null] in an array; a Blob has no enumerable property of its own. *)
Fixpoint JSON_stringify (v : Value) : option string :=
  match v with
  | VUndefined => None
  | VNull => Some "null"
  | VBool true => Some "true"
  | VBool false => Some "false"
  | VNum n => Some (numberText n)
  | VStr s => Some (jsonQuote s)
  | VBlob _ => Some "{}"
  | VArr es =>
      Some ("[" ++ join "," (map (fun e => match JSON_stringify e with
                                           | Some t => t
                                           | None => "null"
                                           end) es) ++ "]")
  | VObj ms =>
      Some ("{" ++ join ","
                 (flat_map (fun kt => match snd kt with
                                      | Some t => [jsonQuote (fst kt) ++ ":" ++ t]
                                      | None => []
                                      end)
                           (Obj.ownEntries
                              (map (fun kv => (fst kv, JSON_stringify (snd kv))) ms)))
                 ++ "}")
  end.

(** ** Percent-encoding *)

(** The characters [encodeURIComponent] leaves as they are: letters, digits
    and [- _ . ! ~ * ' ( )]. *)
Definition unreserved (c : ascii) : bool :=
  let n := N_of_ascii c in
  (((65 <=? n) && (n <=? 90)) || ((97 <=? n) && (n <=? 122))
   || ((48 <=? n) && (n <=? 57))
   || existsb (N.eqb n) [45; 95; 46; 33; 126; 42; 39; 40; 41])%N.

Definition encodeChar (c : ascii) : string :=
  if unreserved c then String c "" else String "%" (hexPair true c).

Fixpoint encodeURIComponent (s : string) : string :=
  match s with
  | EmptyString => ""
  | String c r => encodeChar c ++ encodeURIComponent r
  end.

Definition hexValue (c : ascii) : option N :=
  let n := N_of_ascii c in
  if ((48 <=? n) && (n <=? 57))%N then Some (n - 48)%N
  else if ((65 <=? n) && (n <=? 70))%N then Some (n - 55)%N
  else if ((97 <=? n) && (n <=? 102))%N then Some (n - 87)%N
  else None.

(** [decodeURIComponent]: [None] where JavaScript throws a [URIError]
    (a [%] that two hexadecimal digits do not follow). *)
Fixpoint decodeURIComponent (s : string) : option string :=
  match s with
  | EmptyString => Some ""
  | String c r =>
      if Ascii.eqb c "%" then
        match r with
        | String h (String l r') =>
            match hexValue h, hexValue l, decodeURIComponent r' with
            | Some a, Some b, Some t => Some (String (ascii_of_N (16 * a + b)) t)
            | _, _, _ => None
            end
        | _ => None
        end
      else option_map (String c) (decodeURIComponent r)
  end.

(** ** The helpers of [request] *)

Definition IParams := JsObject.

(** Modelled from the spec: [utils/encode-query-string] is not among the
    sources.  Section 4.3: for each key of the mapping, key and value are
    percent-encoded and written [key=value], the pairs joined with [&]; an
    array-valued or object-valued entry gives one [key=value] pair per
    element instead of one serialized value.  [queryPairs] is the list of
    those pairs before encoding. *)
Definition queryPairs (params : IParams) : list (string * string) :=
  flat_map
    (fun kv =>
       match snd kv with
       | VArr es => map (fun e => (fst kv, ToString e)) es
       | VObj ms => map (fun m => (fst kv, ToString (snd m))) (Obj.ownEntries ms)
       | v => [(fst kv, ToString v)]
       end)
    (Obj.ownEntries params).

(** Modelled from the spec: one [key=value] pair of section 4.3, both
    sides percent-encoded. *)
Definition encodePair (p : string * string) : string :=
  encodeURIComponent (fst p) ++ "=" ++ encodeURIComponent (snd p).

(** Modelled from the spec: the query string of section 4.3, the encoded
    pairs of [utils/encode-query-string] joined with [&]. *)
Definition encodeQueryString (params : IParams) : string :=
  join "&" (map encodePair (queryPairs params)).

(** Modelled from the spec: the decoder the round-trip property of section
    4.3 reads a query string with.  The string is cut at each [&], each
    piece at its first [=], and both sides are percent-decoded; the empty
    string holds no pair. *)
Fixpoint splitOn (sep : ascii) (s : string) : list string :=
  match s with
  | EmptyString => [""]
  | String c r =>
      if Ascii.eqb c sep then "" :: splitOn sep r
      else match splitOn sep r with
           | h :: t => String c h :: t
           | [] => [String c ""]
           end
  end.

(** Modelled from the spec: a piece of the query string cut at its first
    separator, for the decoder of section 4.3. *)
Fixpoint splitFirst (sep : ascii) (s : string) : string * string :=
  match s with
  | EmptyString => ("", "")
  | String c r =>
      if Ascii.eqb c sep then ("", r)
      else let (a, b) := splitFirst sep r in (String c a, b)
  end.

(** Modelled from the spec: one [key=value] piece read back, both sides
    percent-decoded. *)
Definition decodePair (piece : string) : option (string * string) :=
  let (k, v) := splitFirst "=" piece in
  match decodeURIComponent k, decodeURIComponent v with
  | Some k', Some v' => Some (k', v')
  | _, _ => None
  end.

(** Modelled from the spec: every piece read back, or [None] when one of
    them is not percent-encoded text. *)
Fixpoint decodePairs (pieces : list string) : option (list (string * string)) :=
  match pieces with
  | [] => Some []
  | p :: rest =>
      match decodePair p, decodePairs rest with
      | Some kv, Some kvs => Some (kv :: kvs)
      | _, _ => None
      end
  end.

(** Modelled from the spec: the decoding of a query string that the
    round-trip property of sections 4.3 and 8 speaks of. *)
Definition decodeQueryString (q : string) : option (list (string * string)) :=
  match q with
  | EmptyString => Some []
  | _ => decodePairs (splitOn "&" q)
  end.

(** Modelled from the spec: the multipart form container of section 4.4,
    its parts in the order they were appended. *)
Inductive FormPart : Type :=
| StringPart (text : string)
| FilePart (content : string).

Definition FormData := list (string * FormPart).

(** Modelled from the spec: [utils/encode-form-data] is not among the
    sources.  Section 4.4: each key-value pair is appended to the form; a
    binary value as a file part, a structured or array value as the string
    part of its JSON text, any other value as the string part of its text. *)
Definition formPart (v : Value) : FormPart :=
  match v with
  | VBlob content => FilePart content
  | VArr _ | VObj _ =>
      StringPart (match JSON_stringify v with Some t => t | None => "undefined" end)
  | _ => StringPart (ToString v)
  end.

(** Modelled from the spec: [utils/encode-form-data], section 4.4: one
    part per key-value pair of the mapping, in enumeration order. *)
Definition encodeFormData (params : IParams) : FormData :=
  map (fun kv => (fst kv, formPart (snd kv))) (Obj.ownEntries params).

(** Modelled from the spec: the [RequestError] of section 4.2, with its
    message, code, optional sub-code, optional details and the decoded
    body it was found in. *)
Record RequestError : Type := {
  message : Value;
  code : Value;
  messageCode : option Value;
  details : option Value;
  response : Value
}.

(** What a function call ends in: a value, or a thrown error.  The same
    type is what a promise settles to. *)
Inductive Reason : Type :=
| ThrownRequestError (e : RequestError)
| Thrown (v : Value).

Inductive Settled (A : Type) : Type :=
| Fulfilled (a : A)
| Rejected (r : Reason).

Arguments Fulfilled {A} a.
Arguments Rejected {A} r.

(** Modelled from the spec: [utils/check-for-errors] is not among the
    sources.  Section 4.2: a decoded structure with an [error] member that
    is an object carrying a [code] or a [message] fails with a
    [RequestError] (the message, or ["UNKNOWN_ERROR_CODE"] when it is
    missing; the code; the optional sub-code and details; the whole decoded
    body); anything else is returned unchanged. *)
Definition errorSignal (e : JsObject) : bool :=
  match Obj.get "code" e, Obj.get "message" e with
  | None, None => false
  | _, _ => true
  end.

(** Modelled from the spec: the [RequestError] built from the [error]
    member [e] of the decoded body [data]. *)
Definition errorOf (data : Value) (e : JsObject) : RequestError :=
  {| message := match Obj.get "message" e with
                | None | Some VUndefined => VStr "UNKNOWN_ERROR_CODE"
                | Some m => m
                end;
     code := match Obj.get "code" e with
             | Some c => c
             | None => VUndefined
             end;
     messageCode := Obj.get "messageCode" e;
     details := Obj.get "details" e;
     response := data |}.

(** Modelled from the spec: [checkForErrors] of section 4.2, a check that
    throws or hands its input back. *)
Definition checkForErrors (data : Value) : Settled Value :=
  match data with
  | VObj ms =>
      match Obj.get "error" ms with
      | Some (VObj e) =>
          if errorSignal e then Rejected (ThrownRequestError (errorOf data e))
          else Fulfilled data
      | _ => Fulfilled data
      end
  | _ => Fulfilled data
  end.

(** ** Options, transport and promises *)

Inductive HTTPMethods : Type := GET | POST.

(** The body readers of a fetch [Response]: what [json()], [text()] and
    [blob()] settle to. *)
Record Response : Type := {
  json : Settled Value;
  text : Settled string;
  blob : Settled string
}.

Record IAuthenticationManager : Type := {
  getToken : string -> Settled string
}.

(** An optional property of an options object: not there, or there with a
    value that may be [undefined] ([None]). *)
Inductive Field (A : Type) : Type :=
| Absent
| Present (v : option A).

Arguments Absent {A}.
Arguments Present {A} v.

Record IRequestOptions : Type := {
  httpMethod : Field HTTPMethods;
  authentication : Field IAuthenticationManager
}.

Record RequestInit : Type := {
  method : option HTTPMethods;
  body : option FormData
}.

(** The calls a dispatch makes to the outside. *)
Inductive Call : Type :=
| GetTokenCall (url : string)
| FetchCall (url : string) (init : RequestInit).

(** A promise: the calls made until it settled, oldest first, and what it
    settled to. *)
Definition Promise (A : Type) : Type := (list Call * Settled A)%type.

Definition resolve {A} (a : A) : Promise A := ([], Fulfilled a).

Definition settle {A} (s : Settled A) : Promise A := ([], s).

(** [p.then(f)] with a fulfilment handler alone: a rejection passes
    through, and the promise [f] returns is adopted. *)
Definition then_ {A B} (p : Promise A) (f : A -> Promise B) : Promise B :=
  match p with
  | (calls, Fulfilled a) => let (calls', s) := f a in ((calls ++ calls')%list, s)
  | (calls, Rejected r) => (calls, Rejected r)
  end.

Notation "p '.then' f" := (then_ p f) (at level 50, left associativity).

Definition calls {A} (p : Promise A) : list Call := fst p.
Definition outcome {A} (p : Promise A) : Settled A := snd p.

(** [v === s] for a string literal [s]; [None] is a property that is not
    there, which reads as [undefined]. *)
Definition strictEq (v : option Value) (s : string) : bool :=
  match v with
  | Some (VStr t) => String.eqb t s
  | _ => false
  end.

(** [{...{ httpMethod: "POST" }, ...requestOptions}], read back field by
    field. *)
Definition spreadField {A} (default : option A) (f : Field A) : option A :=
  match f with
  | Absent => default
  | Present v => v
  end.

(** The [httpMethod] and [authentication] destructured from the spread
    options (request.ts, lines 91-94); [None] is an argument left out. *)
Definition effectiveOptions (requestOptions : option IRequestOptions)
  : option HTTPMethods * option IAuthenticationManager :=
  match requestOptions with
  | None => (Some POST, None)
  | Some o => (spreadField (Some POST) (httpMethod o),
               spreadField None (authentication o))
  end.

(** [{...{ f: "json" }, ...requestParams}], with the default of the
    parameter when the argument is left out. *)
Definition effectiveParams (requestParams : option IParams) : IParams :=
  Obj.assign [("f", VStr "json")]
             (match requestParams with
              | Some p => p
              | None => [("f", VStr "json")]
              end).

(** [if (token.length) params.token = token]. *)
Definition withToken (token : string) (params : IParams) : IParams :=
  match token with
  | EmptyString => params
  | _ => Obj.set "token" (VStr token) params
  end.

(** [if (httpMethod === "GET") url = url + "?" + encodeQueryString(params)]. *)
Definition targetUrl (m : option HTTPMethods) (url : string) (params : IParams) : string :=
  match m with
  | Some GET => url ++ "?" ++ encodeQueryString params
  | _ => url
  end.

(** [options = { method: httpMethod }], then
    [if (httpMethod === "POST") options.body = encodeFormData(params)]. *)
Definition requestInit (m : option HTTPMethods) (params : IParams) : RequestInit :=
  match m with
  | Some POST => {| method := m; body := Some (encodeFormData params) |}
  | _ => {| method := m; body := None |}
  end.

(** The [switch (params.f)] on the response. *)
Definition decodeResponse (params : IParams) (response : Response) : Promise Value :=
  let f := Obj.get "f" params in
  if strictEq f "json" then settle (json response)
  else if strictEq f "geojson" then settle (json response)
  else if strictEq f "image" then
    settle (blob response) .then (fun b => resolve (VBlob b))
  else if strictEq f "html" then
    settle (text response) .then (fun t => resolve (VStr t))
  else if strictEq f "text" then
    settle (text response) .then (fun t => resolve (VStr t))
  else if strictEq f "zip" then
    settle (blob response) .then (fun b => resolve (VBlob b))
  else resolve VUndefined.

(** The last [then]: the error check on a JSON or GeoJSON result. *)
Definition checkDecoded (params : IParams) (data : Value) : Promise Value :=
  let f := Obj.get "f" params in
  if strictEq f "json" || strictEq f "geojson" then
    match checkForErrors data with
    | Rejected r => settle (Rejected r)
    | Fulfilled _ => resolve data
    end
  else resolve data.

(** [authentication ? authentication.getToken(url) : Promise.resolve("")]. *)
Definition tokenRequest (authentication : option IAuthenticationManager)
           (url : string) : Promise string :=
  match authentication with
  | Some a => ([GetTokenCall url], getToken a url)
  | None => resolve ""
  end.

Section Dispatcher.

(** The global [fetch]: what the transport answers to a request. *)
Variable fetch : string -> RequestInit -> Settled Response.

(** [fetch(url, options)], recorded among the calls. *)
Definition fetchCall (url : string) (init : RequestInit) : Promise Response :=
  ([FetchCall url init], fetch url init).

(** [request] (request.ts, lines 86-150). *)
Definition request (url : string) (requestParams : option IParams)
           (requestOptions : option IRequestOptions) : Promise Value :=
  let (httpMethod, authentication) := effectiveOptions requestOptions in
  let params := effectiveParams requestParams in
  tokenRequest authentication url .then (fun token =>
    let params := withToken token params in
    fetchCall (targetUrl httpMethod url params) (requestInit httpMethod params)
      .then (decodeResponse params)
      .then (checkDecoded params)).

(** Modelled from the spec: [rest-auth]'s [generateToken] is not among the
    sources (only its test is).  Section 6: a thin call into the
    dispatcher with the credentials as its parameters; the dispatcher's
    defaults add [f=json] and the POST method. *)
Definition generateToken (url username password : string) : Promise Value :=
  request url (Some [("username", VStr username); ("password", VStr password)]) None.

End Dispatcher.

(** The [fetch] calls among the calls of a promise. *)
Fixpoint networkCalls (cs : list Call) : list (string * RequestInit) :=
  match cs with
  | [] => []
  | FetchCall url init :: rest => (url, init) :: networkCalls rest
  | GetTokenCall _ :: rest => networkCalls rest
  end.

(** The six response formats of [ResponseFormats]. *)
Definition ResponseFormats : list string :=
  ["json"; "geojson"; "text"; "html"; "image"; "zip"].

(** Whether a character occurs in a string. *)
Fixpoint hasChar (sep : ascii) (s : string) : bool :=
  match s with
  | EmptyString => false
  | String c r => Ascii.eqb c sep || hasChar sep r
  end.

(** The scalar values of a parameter mapping. *)
Definition scalar (v : Value) : bool :=
  match v with
  | VBool _ | VNum _ | VStr _ => true
  | _ => false
  end.

(** A well-formed object has each property once. *)
Definition wellFormed (o : JsObject) : Prop := NoDup (map fst o).

(** ** Sample inputs *)

Definition sampleUrl : string := "https://www.arcgis.com/sharing/rest/search".

Definition sampleErrorBody : Value :=
  VObj [("error", VObj [("code", VNum 400); ("message", VStr "Invalid token")])].

Definition sampleErrorText : string :=
  match JSON_stringify sampleErrorBody with Some t => t | None => "" end.

(** A response whose body is the JSON text of [v]. *)
Definition jsonResponse (v : Value) : Response :=
  let t := match JSON_stringify v with Some t => t | None => "" end in
  {| json := Fulfilled v; text := Fulfilled t; blob := Fulfilled t |}.

Definition sampleFetch (v : Value) : string -> RequestInit -> Settled Response :=
  fun _ _ => Fulfilled (jsonResponse v).

Definition sampleAuth (token : string) : IAuthenticationManager :=
  {| getToken := fun _ => Fulfilled token |}.

Definition sampleOptions (m : HTTPMethods) (a : Field IAuthenticationManager)
  : option IRequestOptions :=
  Some {| httpMethod := Present (Some m); authentication := a |}.

(** * Properties *)

(** ** Objects *)

Module ObjFacts.

Section Facts.
Context {A : Type}.
Implicit Types (o : list (string * A)) (k : string) (v : A).

Lemma get_set_same k v o : Obj.get k (Obj.set k v o) = Some v.
Proof.
  induction o as [|[k' v'] rest IH]; simpl.
  - now rewrite String.eqb_refl.
  - destruct (String.eqb k k') eqn:E; simpl; rewrite E; auto.
Qed.

Lemma get_set_other k k' v o :
  k <> k' -> Obj.get k (Obj.set k' v o) = Obj.get k o.
Proof.
  intros Hne. apply String.eqb_neq in Hne.
  induction o as [|[k0 v0] rest IH]; simpl.
  - now rewrite Hne.
  - destruct (String.eqb k' k0) eqn:E; simpl.
    + apply String.eqb_eq in E. subst k0. now rewrite Hne.
    + now rewrite IH.
Qed.

Lemma set_not_nil k v o : Obj.set k v o <> [].
Proof.
  destruct o as [|[k' v'] rest]; simpl; [discriminate|].
  destruct (String.eqb k k'); discriminate.
Qed.

Lemma in_set_same k v o : In (k, v) (Obj.set k v o).
Proof.
  induction o as [|[k' v'] rest IH]; simpl; auto.
  destruct (String.eqb k k') eqn:E; simpl; auto.
  apply String.eqb_eq in E. subst. auto.
Qed.

Lemma insertIndexed_perm i (e : string * A) l :
  Permutation (Obj.insertIndexed i e l) ((i, e) :: l).
Proof.
  induction l as [|[j e'] rest IH]; simpl; auto.
  destruct (i <=? j)%N; auto.
  rewrite IH. apply perm_swap.
Qed.

Lemma ownEntries_perm o : Permutation (Obj.ownEntries o) o.
Proof.
  unfold Obj.ownEntries.
  induction o as [|[k v] rest IH]; simpl; auto.
  destruct (Obj.arrayIndex k) as [i|].
  - rewrite insertIndexed_perm. simpl. now constructor.
  - symmetry. apply Permutation_cons_app. now symmetry.
Qed.

Lemma in_ownEntries x o : In x (Obj.ownEntries o) <-> In x o.
Proof.
  split; apply Permutation_in;
    [apply ownEntries_perm | symmetry; apply ownEntries_perm].
Qed.

Lemma ownEntries_not_nil o : o <> [] -> Obj.ownEntries o <> [].
Proof.
  intros Hne Hnil. apply Hne.
  apply Permutation_nil. rewrite <- Hnil. apply ownEntries_perm.
Qed.

Lemma get_none_not_in k o :
  Obj.get k o = None <-> ~ In k (map fst o).
Proof.
  induction o as [|[k' v'] rest IH]; simpl.
  - tauto.
  - destruct (String.eqb k k') eqn:E.
    + apply String.eqb_eq in E. subst. split; [discriminate | tauto].
    + apply String.eqb_neq in E. rewrite IH.
      split; [intros H [H'|H']; congruence | tauto].
Qed.

Lemma get_some_in k v o :
  NoDup (map fst o) -> (Obj.get k o = Some v <-> In (k, v) o).
Proof.
  induction o as [|[k' v'] rest IH]; simpl; intros Hnd.
  - split; [discriminate | tauto].
  - inversion Hnd as [|? ? Hnotin Hnd']; subst.
    destruct (String.eqb k k') eqn:E.
    + apply String.eqb_eq in E. subst k'. split.
      * intros H; inversion H; auto.
      * intros [H|H]; [congruence|].
        exfalso. apply Hnotin. now apply (in_map fst) in H.
    + apply String.eqb_neq in E. rewrite (IH Hnd'). split; auto.
      intros [H|H]; [congruence | auto].
Qed.

Lemma get_perm k o o' :
  Permutation o o' -> NoDup (map fst o) -> Obj.get k o = Obj.get k o'.
Proof.
  intros Hp Hnd.
  assert (Hnd' : NoDup (map fst o'))
    by (eapply Permutation_NoDup; [apply Permutation_map, Hp | exact Hnd]).
  destruct (Obj.get k o) as [v|] eqn:E.
  - symmetry. apply (get_some_in _ _ _ Hnd'). eapply Permutation_in; eauto.
    now apply (get_some_in _ _ _ Hnd).
  - symmetry. apply get_none_not_in. apply get_none_not_in in E.
    intros Hin. apply E. eapply Permutation_in; [|exact Hin].
    apply Permutation_map. now symmetry.
Qed.

Lemma get_fold_set k (l : list (string * A)) o :
  NoDup (map fst l) ->
  Obj.get k (fold_left (fun acc kv => Obj.set (fst kv) (snd kv) acc) l o)
  = match Obj.get k l with
    | Some v => Some v
    | None => Obj.get k o
    end.
Proof.
  revert o. induction l as [|[k' v'] rest IH]; simpl; intros o Hnd; auto.
  inversion Hnd as [|? ? Hnotin Hnd']; subst.
  rewrite (IH _ Hnd').
  destruct (String.eqb k k') eqn:E.
  - apply String.eqb_eq in E. subst k'.
    apply get_none_not_in in Hnotin. rewrite Hnotin.
    apply get_set_same.
  - apply String.eqb_neq in E.
    destruct (Obj.get k rest); auto using get_set_other.
Qed.

(** Object spread is a shallow merge: a property of the source wins, a
    property only the target has stays. *)
Lemma get_assign k (target source : list (string * A)) :
  NoDup (map fst source) ->
  Obj.get k (Obj.assign target source)
  = match Obj.get k source with
    | Some v => Some v
    | None => Obj.get k target
    end.
Proof.
  intros Hnd. unfold Obj.assign.
  assert (Hp : Permutation source (Obj.ownEntries source))
    by (symmetry; apply ownEntries_perm).
  rewrite get_fold_set.
  - now rewrite <- (get_perm k _ _ Hp Hnd).
  - eapply Permutation_NoDup; [apply Permutation_map, Hp | exact Hnd].
Qed.

Lemma assign_not_nil (target source : list (string * A)) :
  target <> [] -> Obj.assign target source <> [].
Proof.
  unfold Obj.assign. generalize (Obj.ownEntries source) as l.
  intros l. revert target.
  induction l as [|[k v] rest IH]; simpl; intros target Hne; auto.
  apply IH, set_not_nil.
Qed.

End Facts.

End ObjFacts.

(** ** Percent-encoding and the query string *)

Ltac each_ascii c :=
  destruct c as [[] [] [] [] [] [] [] []]; vm_compute.

Lemma unreserved_not_percent c :
  unreserved c = true -> Ascii.eqb c "%" = false.
Proof. each_ascii c; intros H; try reflexivity; discriminate H. Qed.

Lemma hexPair_value c :
  let n := N_of_ascii c in
  hexValue (hexDigit true (n / 16)) = Some (n / 16)%N
  /\ hexValue (hexDigit true (n mod 16)) = Some (n mod 16)%N
  /\ ascii_of_N (16 * (n / 16) + n mod 16) = c.
Proof. each_ascii c; repeat split. Qed.

Lemma encodeChar_clean c :
  hasChar "&" (encodeChar c) = false /\ hasChar "=" (encodeChar c) = false.
Proof. each_ascii c; split; reflexivity. Qed.

Lemma decode_percent h l r :
  decodeURIComponent (String "%" (String h (String l r)))
  = match hexValue h, hexValue l, decodeURIComponent r with
    | Some a, Some b, Some t => Some (String (ascii_of_N (16 * a + b)) t)
    | _, _, _ => None
    end.
Proof. reflexivity. Qed.

Lemma decode_encodeChar c r :
  decodeURIComponent (encodeChar c ++ r)
  = option_map (String c) (decodeURIComponent r).
Proof.
  unfold encodeChar. destruct (unreserved c) eqn:U.
  - simpl. now rewrite (unreserved_not_percent c U).
  - destruct (hexPair_value c) as (Hh & Hl & Hc).
    unfold hexPair.
    change (decodeURIComponent
              (String "%" (String (hexDigit true (N_of_ascii c / 16))
                 (String (hexDigit true (N_of_ascii c mod 16)) r)))
            = option_map (String c) (decodeURIComponent r)).
    rewrite decode_percent, Hh, Hl.
    destruct (decodeURIComponent r); cbv beta iota; [now rewrite Hc | reflexivity].
Qed.

Lemma decode_encode s : decodeURIComponent (encodeURIComponent s) = Some s.
Proof.
  induction s as [|c r IH]; simpl; auto.
  now rewrite decode_encodeChar, IH.
Qed.

Lemma hasChar_app sep a b :
  hasChar sep (a ++ b) = hasChar sep a || hasChar sep b.
Proof.
  induction a as [|c r IH]; simpl; auto.
  now rewrite IH, orb_assoc.
Qed.

Lemma encode_clean s :
  hasChar "&" (encodeURIComponent s) = false
  /\ hasChar "=" (encodeURIComponent s) = false.
Proof.
  induction s as [|c r [IH1 IH2]]; simpl; auto.
  destruct (encodeChar_clean c) as [H1 H2].
  now rewrite !hasChar_app, H1, H2, IH1, IH2.
Qed.

Lemma splitFirst_app sep a b :
  hasChar sep a = false -> splitFirst sep (a ++ String sep b) = (a, b).
Proof.
  induction a as [|c r IH]; simpl.
  - now rewrite Ascii.eqb_refl.
  - intros H. apply orb_false_iff in H as [Hc Hr].
    now rewrite Hc, (IH Hr).
Qed.

Lemma splitOn_clean sep a : hasChar sep a = false -> splitOn sep a = [a].
Proof.
  induction a as [|c r IH]; simpl; auto.
  intros H. apply orb_false_iff in H as [Hc Hr].
  now rewrite Hc, (IH Hr).
Qed.

Lemma splitOn_app sep a b :
  hasChar sep a = false ->
  splitOn sep (a ++ String sep b) = a :: splitOn sep b.
Proof.
  induction a as [|c r IH]; simpl.
  - now rewrite Ascii.eqb_refl.
  - intros H. apply orb_false_iff in H as [Hc Hr].
    now rewrite Hc, (IH Hr).
Qed.

Lemma splitOn_join sep (pieces : list string) :
  pieces <> [] ->
  Forall (fun p => hasChar sep p = false) pieces ->
  splitOn sep (join (String sep "") pieces) = pieces.
Proof.
  induction pieces as [|p rest IH]; [congruence|].
  intros _ Hall. inversion Hall as [|? ? Hp Hrest]; subst.
  destruct rest as [|q rest'].
  - simpl. now apply splitOn_clean.
  - change (join (String sep "") (p :: q :: rest'))
      with (p ++ String sep (join (String sep "") (q :: rest'))).
    rewrite (splitOn_app _ _ _ Hp). f_equal. apply IH; [discriminate | exact Hrest].
Qed.

Lemma encodePair_clean p : hasChar "&" (encodePair p) = false.
Proof.
  unfold encodePair.
  destruct (encode_clean (fst p)) as [H1 _], (encode_clean (snd p)) as [H2 _].
  rewrite !hasChar_app, H1, H2. reflexivity.
Qed.

Lemma decode_encodePair p : decodePair (encodePair p) = Some p.
Proof.
  unfold decodePair, encodePair. destruct p as [k v]. simpl fst. simpl snd.
  change ("=" ++ encodeURIComponent v) with (String "=" (encodeURIComponent v)).
  rewrite splitFirst_app by apply encode_clean.
  now rewrite !decode_encode.
Qed.

Lemma decodePairs_encode ps : decodePairs (map encodePair ps) = Some ps.
Proof.
  induction ps as [|p rest IH]; simpl; auto.
  now rewrite decode_encodePair, IH.
Qed.

Lemma encodePair_not_empty p : encodePair p <> "".
Proof.
  unfold encodePair. intros H.
  assert (Hc : hasChar "=" (encodeURIComponent (fst p) ++ "=" ++ encodeURIComponent (snd p)) = true)
    by (rewrite hasChar_app; simpl; apply orb_true_r).
  rewrite H in Hc. discriminate Hc.
Qed.

Lemma decode_join ps :
  decodeQueryString (join "&" (map encodePair ps)) = Some ps.
Proof.
  destruct ps as [|p rest]; [reflexivity|].
  unfold decodeQueryString.
  destruct (join "&" (map encodePair (p :: rest))) eqn:E.
  - exfalso. simpl in E. destruct (map encodePair rest).
    + now apply (encodePair_not_empty p).
    + destruct (encodePair p) eqn:Ep; [now apply (encodePair_not_empty p) | discriminate E].
  - rewrite <- E. rewrite splitOn_join.
    + apply decodePairs_encode.
    + discriminate.
    + apply Forall_forall. intros x Hx. apply in_map_iff in Hx as (q & <- & _).
      apply encodePair_clean.
Qed.

Lemma queryPairs_scalar_in (p : IParams) k v :
  In (k, v) p -> scalar v = true -> In (k, ToString v) (queryPairs p).
Proof.
  intros Hin Hs. unfold queryPairs. apply in_flat_map.
  exists (k, v). split; [now apply ObjFacts.in_ownEntries|].
  simpl. destruct v; try discriminate Hs; simpl; auto.
Qed.

Lemma queryPairs_all_scalar (p : IParams) :
  (forall kv, In kv p -> scalar (snd kv) = true) ->
  queryPairs p = map (fun kv => (fst kv, ToString (snd kv))) (Obj.ownEntries p).
Proof.
  intros Hall. unfold queryPairs.
  assert (Hall' : forall kv, In kv (Obj.ownEntries p) -> scalar (snd kv) = true)
    by (intros kv H; apply Hall; now apply ObjFacts.in_ownEntries).
  revert Hall'. generalize (Obj.ownEntries p) as l.
  induction l as [|[k v] rest IH]; intros Hl; [reflexivity|].
  cbn [flat_map map]. rewrite IH by (intros kv H; apply Hl; now right).
  specialize (Hl (k, v) (or_introl eq_refl)). cbn [fst snd] in *.
  destruct v; try discriminate Hl; reflexivity.
Qed.

Lemma encodeFormData_in (p : IParams) k v :
  In (k, v) p -> In (k, formPart v) (encodeFormData p).
Proof.
  intros Hin. unfold encodeFormData.
  apply (in_map (fun kv => (fst kv, formPart (snd kv))) _ (k, v)).
  now apply ObjFacts.in_ownEntries.
Qed.

(** C8: decoding the query string the encoder produces for a parameter
    mapping gives back its key/value pairs, each value as its text: the
    decoded list is the list of pairs the encoder wrote, every scalar entry
    of the mapping is among them, and for a mapping of scalars alone they
    are exactly its entries, in enumeration order. *)
Theorem encodeQueryString_roundtrip (p : IParams) :
  decodeQueryString (encodeQueryString p) = Some (queryPairs p)
  /\ (forall k v, In (k, v) p -> scalar v = true ->
                  In (k, ToString v) (queryPairs p))
  /\ ((forall kv, In kv p -> scalar (snd kv) = true) ->
      queryPairs p = map (fun kv => (fst kv, ToString (snd kv))) (Obj.ownEntries p)).
Proof.
  split; [apply decode_join|]. split.
  - apply queryPairs_scalar_in.
  - apply queryPairs_all_scalar.
Qed.

(** C8 at a mapping with a reserved character in a key and in a value, a
    number, a boolean and an array. *)
Lemma encodeQueryString_roundtrip_witness :
  encodeQueryString
    [("f", VStr "json"); ("q", VStr "a b&c=d%"); ("n&m", VNum 25);
     ("ok", VBool true); ("ids", VArr [VNum 1; VNum 2])]
  = "f=json&q=a%20b%26c%3Dd%25&n%26m=25&ok=true&ids=1&ids=2"
  /\ decodeQueryString "f=json&q=a%20b%26c%3Dd%25&n%26m=25&ok=true&ids=1&ids=2"
     = Some [("f", "json"); ("q", "a b&c=d%"); ("n&m", "25"); ("ok", "true");
             ("ids", "1"); ("ids", "2")].
Proof.
  split; [reflexivity|].
  exact (proj1 (encodeQueryString_roundtrip
                  [("f", VStr "json"); ("q", VStr "a b&c=d%"); ("n&m", VNum 25);
                   ("ok", VBool true); ("ids", VArr [VNum 1; VNum 2])])).
Defined.

(** ** The dispatcher *)

Lemma networkCalls_app cs cs' :
  networkCalls (cs ++ cs') = (networkCalls cs ++ networkCalls cs')%list.
Proof.
  induction cs as [|[u|u i] rest IH]; simpl; auto. now rewrite IH.
Qed.

Lemma tokenRequest_no_fetch a url : networkCalls (calls (tokenRequest a url)) = [].
Proof. now destruct a. Qed.

Lemma decodeResponse_calls params resp : calls (decodeResponse params resp) = [].
Proof.
  unfold decodeResponse.
  repeat match goal with
         | |- context [if ?b then _ else _] => destruct b
         end; try reflexivity;
    unfold settle, then_; simpl;
    match goal with
    | |- context [blob resp] => destruct (blob resp)
    | |- context [text resp] => destruct (text resp)
    end; reflexivity.
Qed.

Lemma checkDecoded_calls params data : calls (checkDecoded params data) = [].
Proof.
  unfold checkDecoded.
  destruct (strictEq _ "json" || strictEq _ "geojson"); [|reflexivity].
  destruct (checkForErrors data); reflexivity.
Qed.

Lemma then_no_calls {A B} (p : Promise A) (f : A -> Promise B) :
  (forall a, calls (f a) = []) -> calls (p .then f) = calls p.
Proof.
  intros Hf. destruct p as [cs [a|r]]; simpl; [|reflexivity].
  specialize (Hf a). destruct (f a) as [cs' s]. simpl in *. subst.
  apply app_nil_r.
Qed.

Lemma then_outcome {A B} (p : Promise A) (f : A -> Promise B) :
  outcome (p .then f) = match outcome p with
                        | Fulfilled a => outcome (f a)
                        | Rejected r => Rejected r
                        end.
Proof.
  destruct p as [cs [a|r]]; simpl; [|reflexivity]. now destruct (f a).
Qed.

Lemma then_calls_fulfilled {A B} (p : Promise A) (f : A -> Promise B) a :
  outcome p = Fulfilled a -> calls (p .then f) = (calls p ++ calls (f a))%list.
Proof.
  destruct p as [cs s]; simpl. intros ->. now destruct (f a).
Qed.

Lemma then_calls_rejected {A B} (p : Promise A) (f : A -> Promise B) r :
  outcome p = Rejected r -> calls (p .then f) = calls p.
Proof. destruct p as [cs s]; simpl. now intros ->. Qed.

Lemma withToken_format token params :
  Obj.get "f" (withToken token params) = Obj.get "f" params.
Proof.
  destruct token; [reflexivity|]. simpl withToken.
  apply ObjFacts.get_set_other. discriminate.
Qed.

Section DispatcherFacts.

Variable fetch : string -> RequestInit -> Settled Response.
Variables (url : string) (requestParams : option IParams)
          (requestOptions : option IRequestOptions).
Variables (m : option HTTPMethods) (a : option IAuthenticationManager).
Hypothesis Hoptions : effectiveOptions requestOptions = (m, a).

Let dispatch := request fetch url requestParams requestOptions.

Lemma request_unfold :
  dispatch
  = tokenRequest a url .then (fun token =>
      let params := withToken token (effectiveParams requestParams) in
      fetchCall fetch (targetUrl m url params) (requestInit m params)
        .then (decodeResponse params)
        .then (checkDecoded params)).
Proof. unfold dispatch, request. now rewrite Hoptions. Qed.

Lemma request_token_rejected r :
  outcome (tokenRequest a url) = Rejected r ->
  calls dispatch = calls (tokenRequest a url) /\ outcome dispatch = Rejected r.
Proof.
  intros Ht. rewrite request_unfold. split.
  - now apply then_calls_rejected with (r := r).
  - now rewrite then_outcome, Ht.
Qed.

Section Token.

Variable token : string.
Hypothesis Htoken : outcome (tokenRequest a url) = Fulfilled token.

Let params := withToken token (effectiveParams requestParams).

Lemma request_calls :
  calls dispatch
  = (calls (tokenRequest a url)
       ++ [FetchCall (targetUrl m url params) (requestInit m params)])%list.
Proof.
  rewrite request_unfold.
  rewrite (then_calls_fulfilled _ _ token Htoken). f_equal.
  cbv zeta. fold params.
  rewrite then_no_calls by apply checkDecoded_calls.
  rewrite then_no_calls by apply decodeResponse_calls.
  reflexivity.
Qed.

Lemma request_network_calls :
  networkCalls (calls dispatch)
  = [(targetUrl m url params, requestInit m params)].
Proof.
  now rewrite request_calls, networkCalls_app, tokenRequest_no_fetch.
Qed.

Lemma request_outcome :
  outcome dispatch
  = match fetch (targetUrl m url params) (requestInit m params) with
    | Fulfilled resp =>
        match outcome (decodeResponse params resp) with
        | Fulfilled data => outcome (checkDecoded params data)
        | Rejected r => Rejected r
        end
    | Rejected r => Rejected r
    end.
Proof.
  rewrite request_unfold, then_outcome, Htoken. cbv zeta. fold params.
  rewrite !then_outcome. unfold fetchCall.
  change (outcome ([FetchCall (targetUrl m url params) (requestInit m params)],
                   fetch (targetUrl m url params) (requestInit m params)))
    with (fetch (targetUrl m url params) (requestInit m params)).
  now destruct (fetch (targetUrl m url params) (requestInit m params)).
Qed.

End Token.

End DispatcherFacts.

Lemma strictEq_true v s : strictEq v s = true <-> v = Some (VStr s).
Proof.
  unfold strictEq. destruct v as [[]|]; try (split; [discriminate|congruence]).
  rewrite String.eqb_eq. split; congruence.
Qed.

Lemma strictEq_false v s : strictEq v s = false <-> v <> Some (VStr s).
Proof.
  rewrite <- strictEq_true. destruct (strictEq v s); split; congruence.
Qed.

Lemma settle_then_outcome {A B} (s : Settled A) (g : A -> B) :
  outcome (settle s .then (fun x => resolve (g x)))
  = match s with
    | Fulfilled x => Fulfilled (g x)
    | Rejected r => Rejected r
    end.
Proof. now destruct s. Qed.

Section DecodeFacts.

Variables (params : IParams) (resp : Response).

Lemma decodeResponse_json :
  Obj.get "f" params = Some (VStr "json")
  \/ Obj.get "f" params = Some (VStr "geojson") ->
  decodeResponse params resp = settle (json resp).
Proof. unfold decodeResponse. intros [-> | ->]; reflexivity. Qed.

Lemma decodeResponse_text :
  Obj.get "f" params = Some (VStr "text")
  \/ Obj.get "f" params = Some (VStr "html") ->
  decodeResponse params resp
  = settle (text resp) .then (fun t => resolve (VStr t)).
Proof. unfold decodeResponse. intros [-> | ->]; reflexivity. Qed.

Lemma decodeResponse_blob :
  Obj.get "f" params = Some (VStr "image")
  \/ Obj.get "f" params = Some (VStr "zip") ->
  decodeResponse params resp
  = settle (blob resp) .then (fun b => resolve (VBlob b)).
Proof. unfold decodeResponse. intros [-> | ->]; reflexivity. Qed.

Lemma decodeResponse_unmatched :
  (forall s, In s ResponseFormats -> Obj.get "f" params <> Some (VStr s)) ->
  decodeResponse params resp = resolve VUndefined.
Proof.
  intros H. unfold decodeResponse.
  repeat match goal with
         | |- context [strictEq ?v ?s] =>
             let E := fresh "E" in
             destruct (strictEq v s) eqn:E;
             [apply strictEq_true in E; exfalso; apply (H s); [simpl; tauto | exact E] |]
         end.
  reflexivity.
Qed.

Lemma checkDecoded_json data :
  Obj.get "f" params = Some (VStr "json")
  \/ Obj.get "f" params = Some (VStr "geojson") ->
  outcome (checkDecoded params data)
  = match checkForErrors data with
    | Rejected r => Rejected r
    | Fulfilled _ => Fulfilled data
    end.
Proof.
  unfold checkDecoded. intros [-> | ->]; simpl;
    destruct (checkForErrors data); reflexivity.
Qed.

Lemma checkDecoded_other data :
  Obj.get "f" params <> Some (VStr "json") ->
  Obj.get "f" params <> Some (VStr "geojson") ->
  checkDecoded params data = resolve data.
Proof.
  intros H1 H2. unfold checkDecoded.
  apply strictEq_false in H1, H2. now rewrite H1, H2.
Qed.

End DecodeFacts.

Lemma effectiveParams_not_nil rp token :
  withToken token (effectiveParams rp) <> [].
Proof.
  assert (H : effectiveParams rp <> [])
    by (apply ObjFacts.assign_not_nil; discriminate).
  destruct token; simpl; [exact H | apply ObjFacts.set_not_nil].
Qed.

Lemma encodeFormData_not_nil params : params <> [] -> encodeFormData params <> [].
Proof.
  intros H Hnil. apply (ObjFacts.ownEntries_not_nil params H).
  unfold encodeFormData in Hnil. now apply map_eq_nil in Hnil.
Qed.

(** C1: once the token is there, a dispatch whose method is GET calls
    [fetch] once, without a body, at the URL followed by [?] and the query
    string of the merged parameters; one whose method is POST calls it
    once, at the URL as given, with the form encoding of the merged
    parameters as its body, and that form has at least one part. *)
Theorem request_encoding_by_method
        (fetch : string -> RequestInit -> Settled Response)
        (url : string) (rp : option IParams) (ro : option IRequestOptions)
        (m : option HTTPMethods) (a : option IAuthenticationManager)
        (token : string) :
  effectiveOptions ro = (m, a) ->
  outcome (tokenRequest a url) = Fulfilled token ->
  let params := withToken token (effectiveParams rp) in
  (m = Some GET ->
   networkCalls (calls (request fetch url rp ro))
   = [(url ++ "?" ++ encodeQueryString params,
       {| method := Some GET; body := None |})])
  /\ (m = Some POST ->
      networkCalls (calls (request fetch url rp ro))
      = [(url, {| method := Some POST; body := Some (encodeFormData params) |})]
      /\ encodeFormData params <> []).
Proof.
  intros Ho Ht params. split; intros ->.
  - now rewrite (request_network_calls fetch url rp ro _ _ Ho token Ht).
  - split.
    + now rewrite (request_network_calls fetch url rp ro _ _ Ho token Ht).
    + apply encodeFormData_not_nil, effectiveParams_not_nil.
Qed.

(** C1 on a search with GET and on the same search with POST and a token. *)
Lemma request_encoding_by_method_witness :
  networkCalls (calls (request (sampleFetch VNull) sampleUrl
                               (Some [("q", VStr "parks")])
                               (sampleOptions GET Absent)))
  = [("https://www.arcgis.com/sharing/rest/search?f=json&q=parks",
      {| method := Some GET; body := None |})]
  /\ networkCalls (calls (request (sampleFetch VNull) sampleUrl
                                  (Some [("q", VStr "parks")])
                                  (sampleOptions POST (Present (Some (sampleAuth "abc"))))))
     = [(sampleUrl,
         {| method := Some POST;
            body := Some [("f", StringPart "json"); ("q", StringPart "parks");
                          ("token", StringPart "abc")] |})].
Proof.
  split.
  - exact (proj1 (request_encoding_by_method
                    (sampleFetch VNull) sampleUrl (Some [("q", VStr "parks")])
                    (sampleOptions GET Absent) (Some GET) None ""
                    eq_refl eq_refl) eq_refl).
  - exact (proj1 (proj2 (request_encoding_by_method
                    (sampleFetch VNull) sampleUrl (Some [("q", VStr "parks")])
                    (sampleOptions POST (Present (Some (sampleAuth "abc"))))
                    (Some POST) (Some (sampleAuth "abc")) "abc"
                    eq_refl eq_refl) eq_refl)).
Defined.

Section FormatFacts.

Variable fetch : string -> RequestInit -> Settled Response.
Variables (url : string) (rp : option IParams) (ro : option IRequestOptions).
Variables (m : option HTTPMethods) (a : option IAuthenticationManager).
Variables (token : string) (resp : Response).
Hypothesis Ho : effectiveOptions ro = (m, a).
Hypothesis Ht : outcome (tokenRequest a url) = Fulfilled token.

Let params := withToken token (effectiveParams rp).
Let f := Obj.get "f" (effectiveParams rp).

Hypothesis Hf : fetch (targetUrl m url params) (requestInit m params) = Fulfilled resp.

Lemma dispatch_outcome :
  outcome (request fetch url rp ro)
  = match outcome (decodeResponse params resp) with
    | Fulfilled data => outcome (checkDecoded params data)
    | Rejected r => Rejected r
    end.
Proof.
  rewrite (request_outcome fetch url rp ro m a Ho token Ht).
  fold params. now rewrite Hf.
Qed.

Lemma dispatch_format : Obj.get "f" params = f.
Proof. apply withToken_format. Qed.

Lemma dispatch_checked :
  f = Some (VStr "json") \/ f = Some (VStr "geojson") ->
  outcome (request fetch url rp ro)
  = match outcome (decodeResponse params resp) with
    | Fulfilled data => match checkForErrors data with
                        | Rejected r => Rejected r
                        | Fulfilled _ => Fulfilled data
                        end
    | Rejected r => Rejected r
    end.
Proof.
  intros H. rewrite dispatch_outcome.
  destruct (outcome (decodeResponse params resp)); [|reflexivity].
  apply checkDecoded_json. now rewrite dispatch_format.
Qed.

Lemma dispatch_unchecked :
  f <> Some (VStr "json") -> f <> Some (VStr "geojson") ->
  outcome (request fetch url rp ro) = outcome (decodeResponse params resp).
Proof.
  intros H1 H2. rewrite dispatch_outcome.
  destruct (outcome (decodeResponse params resp)); [|reflexivity].
  rewrite checkDecoded_other; [reflexivity | |]; now rewrite dispatch_format.
Qed.

Lemma dispatch_json :
  f = Some (VStr "json") \/ f = Some (VStr "geojson") ->
  outcome (request fetch url rp ro)
  = match json resp with
    | Fulfilled v => match checkForErrors v with
                     | Rejected r => Rejected r
                     | Fulfilled _ => Fulfilled v
                     end
    | Rejected r => Rejected r
    end.
Proof.
  intros H. rewrite (dispatch_checked H).
  rewrite decodeResponse_json by now rewrite dispatch_format.
  reflexivity.
Qed.

Lemma dispatch_text :
  f = Some (VStr "text") \/ f = Some (VStr "html") ->
  outcome (request fetch url rp ro)
  = match text resp with
    | Fulfilled t => Fulfilled (VStr t)
    | Rejected r => Rejected r
    end.
Proof.
  intros H. rewrite dispatch_unchecked by (destruct H as [-> | ->]; discriminate).
  rewrite decodeResponse_text by now rewrite dispatch_format.
  apply settle_then_outcome.
Qed.

Lemma dispatch_blob :
  f = Some (VStr "image") \/ f = Some (VStr "zip") ->
  outcome (request fetch url rp ro)
  = match blob resp with
    | Fulfilled b => Fulfilled (VBlob b)
    | Rejected r => Rejected r
    end.
Proof.
  intros H. rewrite dispatch_unchecked by (destruct H as [-> | ->]; discriminate).
  rewrite decodeResponse_blob by now rewrite dispatch_format.
  apply settle_then_outcome.
Qed.

End FormatFacts.

(** C2: the format of the merged parameters alone chooses how the body of
    the response is read.  With ["json"] or ["geojson"] the result is what
    [json()] parsed (then subject to the error check), with ["text"] or
    ["html"] it is the string [text()] gives, with ["image"] or ["zip"] it
    is the binary object [blob()] gives; two parameter objects with the
    same format read the response the same way. *)
Theorem response_decoding_by_format
        (fetch : string -> RequestInit -> Settled Response)
        (url : string) (rp : option IParams) (ro : option IRequestOptions)
        (m : option HTTPMethods) (a : option IAuthenticationManager)
        (token : string) (resp : Response) :
  effectiveOptions ro = (m, a) ->
  outcome (tokenRequest a url) = Fulfilled token ->
  let params := withToken token (effectiveParams rp) in
  fetch (targetUrl m url params) (requestInit m params) = Fulfilled resp ->
  let f := Obj.get "f" (effectiveParams rp) in
  (f = Some (VStr "json") \/ f = Some (VStr "geojson") ->
   decodeResponse params resp = settle (json resp)
   /\ outcome (request fetch url rp ro)
      = match json resp with
        | Fulfilled v => match checkForErrors v with
                         | Rejected r => Rejected r
                         | Fulfilled _ => Fulfilled v
                         end
        | Rejected r => Rejected r
        end)
  /\ (f = Some (VStr "text") \/ f = Some (VStr "html") ->
      outcome (request fetch url rp ro)
      = match text resp with
        | Fulfilled t => Fulfilled (VStr t)
        | Rejected r => Rejected r
        end)
  /\ (f = Some (VStr "image") \/ f = Some (VStr "zip") ->
      outcome (request fetch url rp ro)
      = match blob resp with
        | Fulfilled b => Fulfilled (VBlob b)
        | Rejected r => Rejected r
        end)
  /\ (forall params' : IParams,
         Obj.get "f" params' = f ->
         decodeResponse params' resp = decodeResponse params resp).
Proof.
  intros Ho Ht params Hf f.
  assert (Hfmt : Obj.get "f" params = f) by apply withToken_format.
  repeat split.
  - apply decodeResponse_json. now rewrite Hfmt.
  - now apply (dispatch_json fetch url rp ro m a token resp Ho Ht Hf).
  - now apply (dispatch_text fetch url rp ro m a token resp Ho Ht Hf).
  - now apply (dispatch_blob fetch url rp ro m a token resp Ho Ht Hf).
  - intros params' H. unfold decodeResponse. now rewrite H, Hfmt.
Qed.

(** C2 on an HTML page fetched with GET. *)
Lemma response_decoding_by_format_witness :
  outcome (request (sampleFetch (VStr "<p>")) sampleUrl
                   (Some [("f", VStr "html")]) (sampleOptions GET Absent))
  = Fulfilled (VStr (String (ascii_of_N 34) ("<p>" ++ String (ascii_of_N 34) ""))).
Proof.
  exact (proj1 (proj2 (response_decoding_by_format
                         (sampleFetch (VStr "<p>")) sampleUrl
                         (Some [("f", VStr "html")]) (sampleOptions GET Absent)
                         (Some GET) None "" (jsonResponse (VStr "<p>"))
                         eq_refl eq_refl eq_refl))
               (or_intror eq_refl)).
Defined.

(** C3: with format ["json"] or ["geojson"], a decoded body whose [error]
    member is an object with a code makes the dispatch reject with a
    [RequestError] that carries the embedded message (or
    ["UNKNOWN_ERROR_CODE"] when there is none), the embedded code and the
    decoded body. *)
Theorem embedded_error_rejects
        (fetch : string -> RequestInit -> Settled Response)
        (url : string) (rp : option IParams) (ro : option IRequestOptions)
        (m : option HTTPMethods) (a : option IAuthenticationManager)
        (token : string) (resp : Response)
        (ms e : JsObject) (c : Value) :
  effectiveOptions ro = (m, a) ->
  outcome (tokenRequest a url) = Fulfilled token ->
  let params := withToken token (effectiveParams rp) in
  fetch (targetUrl m url params) (requestInit m params) = Fulfilled resp ->
  let f := Obj.get "f" (effectiveParams rp) in
  f = Some (VStr "json") \/ f = Some (VStr "geojson") ->
  json resp = Fulfilled (VObj ms) ->
  Obj.get "error" ms = Some (VObj e) ->
  Obj.get "code" e = Some c ->
  exists err : RequestError,
    outcome (request fetch url rp ro) = Rejected (ThrownRequestError err)
    /\ message err = match Obj.get "message" e with
                     | None | Some VUndefined => VStr "UNKNOWN_ERROR_CODE"
                     | Some msg => msg
                     end
    /\ code err = c
    /\ response err = VObj ms.
Proof.
  intros Ho Ht params Hf f Hfmt Hjson Herr Hcode.
  pose proof (dispatch_json fetch url rp ro m a token resp Ho Ht Hf Hfmt) as Hout.
  rewrite Hjson in Hout.
  exists (errorOf (VObj ms) e). split.
  - rewrite Hout. unfold checkForErrors. rewrite Herr.
    unfold errorSignal. now rewrite Hcode.
  - unfold errorOf. simpl. now rewrite Hcode.
Qed.

(** C3 on the body [{error: {code: 400, message: "Invalid token"}}]. *)
Lemma embedded_error_rejects_witness :
  exists err : RequestError,
    outcome (request (sampleFetch sampleErrorBody) sampleUrl None None)
    = Rejected (ThrownRequestError err)
    /\ message err = VStr "Invalid token"
    /\ code err = VNum 400
    /\ response err = sampleErrorBody.
Proof.
  exact (embedded_error_rejects
           (sampleFetch sampleErrorBody) sampleUrl None None
           (Some POST) None "" (jsonResponse sampleErrorBody)
           [("error", VObj [("code", VNum 400); ("message", VStr "Invalid token")])]
           [("code", VNum 400); ("message", VStr "Invalid token")] (VNum 400)
           eq_refl eq_refl eq_refl (or_introl eq_refl) eq_refl eq_refl eq_refl).
Defined.

(** C4: the error check runs on the decoded value exactly when the format
    is ["json"] or ["geojson"].  With any other format the last step hands
    every value on as it is, whatever the check would say of it, and the
    dispatch settles as the decoding did; with ["image"] it resolves with
    the binary body. *)
Theorem error_check_only_for_json
        (fetch : string -> RequestInit -> Settled Response)
        (url : string) (rp : option IParams) (ro : option IRequestOptions)
        (m : option HTTPMethods) (a : option IAuthenticationManager)
        (token : string) (resp : Response) :
  effectiveOptions ro = (m, a) ->
  outcome (tokenRequest a url) = Fulfilled token ->
  let params := withToken token (effectiveParams rp) in
  fetch (targetUrl m url params) (requestInit m params) = Fulfilled resp ->
  let f := Obj.get "f" (effectiveParams rp) in
  (f = Some (VStr "json") \/ f = Some (VStr "geojson") ->
   (forall data, outcome (checkDecoded params data)
                 = match checkForErrors data with
                   | Rejected r => Rejected r
                   | Fulfilled _ => Fulfilled data
                   end)
   /\ outcome (request fetch url rp ro)
      = match outcome (decodeResponse params resp) with
        | Fulfilled data => match checkForErrors data with
                            | Rejected r => Rejected r
                            | Fulfilled _ => Fulfilled data
                            end
        | Rejected r => Rejected r
        end)
  /\ (f <> Some (VStr "json") -> f <> Some (VStr "geojson") ->
      (forall data, checkDecoded params data = resolve data)
      /\ outcome (request fetch url rp ro) = outcome (decodeResponse params resp))
  /\ (f = Some (VStr "image") ->
      forall b, blob resp = Fulfilled b ->
                outcome (request fetch url rp ro) = Fulfilled (VBlob b)).
Proof.
  intros Ho Ht params Hf f.
  assert (Hfmt : Obj.get "f" params = f) by apply withToken_format.
  repeat split.
  - intros data. apply checkDecoded_json. now rewrite Hfmt.
  - now apply (dispatch_checked fetch url rp ro m a token resp Ho Ht Hf).
  - intros data. apply checkDecoded_other; now rewrite Hfmt.
  - now apply (dispatch_unchecked fetch url rp ro m a token resp Ho Ht Hf).
  - intros Himg b Hb.
    rewrite (dispatch_blob fetch url rp ro m a token resp Ho Ht Hf (or_introl Himg)).
    now rewrite Hb.
Qed.

(** C4 on a response whose body is the text of
    [{error: {code: 400, message: "Invalid token"}}]: asked for as an
    image it is resolved as binary data, though the check rejects the
    parsed body. *)
Lemma error_check_only_for_json_witness :
  outcome (request (sampleFetch sampleErrorBody) sampleUrl
                   (Some [("f", VStr "image")]) None)
  = Fulfilled (VBlob sampleErrorText)
  /\ (exists err, checkForErrors sampleErrorBody = Rejected (ThrownRequestError err)).
Proof.
  split.
  - exact (proj2 (proj2 (error_check_only_for_json
                           (sampleFetch sampleErrorBody) sampleUrl
                           (Some [("f", VStr "image")]) None
                           (Some POST) None "" (jsonResponse sampleErrorBody)
                           eq_refl eq_refl eq_refl))
                 eq_refl sampleErrorText eq_refl).
  - eexists. reflexivity.
Defined.

(** C7: a format that is none of the six makes the decoding step give
    [undefined], and the dispatch resolves with it; nothing is thrown. *)
Theorem unmatched_format_resolves_undefined
        (fetch : string -> RequestInit -> Settled Response)
        (url : string) (rp : option IParams) (ro : option IRequestOptions)
        (m : option HTTPMethods) (a : option IAuthenticationManager)
        (token : string) (resp : Response) :
  effectiveOptions ro = (m, a) ->
  outcome (tokenRequest a url) = Fulfilled token ->
  let params := withToken token (effectiveParams rp) in
  fetch (targetUrl m url params) (requestInit m params) = Fulfilled resp ->
  (forall s, In s ResponseFormats ->
             Obj.get "f" (effectiveParams rp) <> Some (VStr s)) ->
  decodeResponse params resp = resolve VUndefined
  /\ outcome (request fetch url rp ro) = Fulfilled VUndefined.
Proof.
  intros Ho Ht params Hf Hnone.
  assert (Hnone' : forall s, In s ResponseFormats ->
                             Obj.get "f" params <> Some (VStr s))
    by (intros s Hs; unfold params; rewrite withToken_format; now apply Hnone).
  assert (Hdec : decodeResponse params resp = resolve VUndefined)
    by now apply decodeResponse_unmatched.
  split; [exact Hdec|].
  rewrite (dispatch_unchecked fetch url rp ro m a token resp Ho Ht Hf)
    by (apply Hnone; simpl; tauto).
  fold params. now rewrite Hdec.
Qed.

(** C7 on the format ["pbf"]. *)
Lemma unmatched_format_resolves_undefined_witness :
  outcome (request (sampleFetch sampleErrorBody) sampleUrl
                   (Some [("f", VStr "pbf")]) None)
  = Fulfilled VUndefined.
Proof.
  refine (proj2 (unmatched_format_resolves_undefined
                   (sampleFetch sampleErrorBody) sampleUrl
                   (Some [("f", VStr "pbf")]) None
                   (Some POST) None "" (jsonResponse sampleErrorBody)
                   eq_refl eq_refl eq_refl _)).
  intros s Hs. simpl in Hs.
  repeat (destruct Hs as [<- | Hs]; [discriminate|]). contradiction.
Defined.

(** C5: a provider whose token is a non-empty string is asked first, and
    the one [fetch] call that follows is built from the merged parameters
    with [token] set to that string, so the query string and the form both
    carry it; with no provider the call is built from the merged
    parameters as they are, and a caller who gave no [token] sends none;
    when the provider fails nothing is encoded or sent. *)
Theorem token_injected_before_encoding
        (fetch : string -> RequestInit -> Settled Response)
        (url : string) (rp : option IParams) (ro : option IRequestOptions)
        (m : option HTTPMethods) :
  (forall (a : IAuthenticationManager) (token : string),
      effectiveOptions ro = (m, Some a) ->
      getToken a url = Fulfilled token ->
      token <> "" ->
      let params := Obj.set "token" (VStr token) (effectiveParams rp) in
      calls (request fetch url rp ro)
      = [GetTokenCall url;
         FetchCall (targetUrl m url params) (requestInit m params)]
      /\ Obj.get "token" params = Some (VStr token)
      /\ In ("token", token) (queryPairs params)
      /\ In ("token", StringPart token) (encodeFormData params))
  /\ (effectiveOptions ro = (m, None) ->
      calls (request fetch url rp ro)
      = [FetchCall (targetUrl m url (effectiveParams rp))
                   (requestInit m (effectiveParams rp))]
      /\ (forall p, rp = Some p -> wellFormed p -> Obj.get "token" p = None ->
                    Obj.get "token" (effectiveParams rp) = None))
  /\ (forall (a : IAuthenticationManager) (r : Reason),
         effectiveOptions ro = (m, Some a) ->
         getToken a url = Rejected r ->
         calls (request fetch url rp ro) = [GetTokenCall url]
         /\ outcome (request fetch url rp ro) = Rejected r).
Proof.
  split; [|split].
  - intros a token Ho Ht Hne params. repeat split.
    + rewrite (request_calls fetch url rp ro m (Some a) Ho token Ht).
      destruct token; [congruence | reflexivity].
    + apply ObjFacts.get_set_same.
    + apply (queryPairs_scalar_in _ "token" (VStr token));
        [apply ObjFacts.in_set_same | reflexivity].
    + apply (encodeFormData_in _ "token" (VStr token)), ObjFacts.in_set_same.
  - intros Ho. split.
    + now rewrite (request_calls fetch url rp ro m None Ho "" eq_refl).
    + intros p -> Hwf Hnone. unfold effectiveParams.
      rewrite ObjFacts.get_assign by exact Hwf. now rewrite Hnone.
  - intros a r Ho Ht.
    now destruct (request_token_rejected fetch url rp ro m (Some a) Ho r Ht).
Qed.

(** C5 on a search sent with GET by a caller whose provider gives the
    token [abc], and on the same search with no provider. *)
Lemma token_injected_before_encoding_witness :
  calls (request (sampleFetch VNull) sampleUrl (Some [("q", VStr "parks")])
                 (sampleOptions GET (Present (Some (sampleAuth "abc")))))
  = [GetTokenCall sampleUrl;
     FetchCall "https://www.arcgis.com/sharing/rest/search?f=json&q=parks&token=abc"
               {| method := Some GET; body := None |}]
  /\ calls (request (sampleFetch VNull) sampleUrl (Some [("q", VStr "parks")])
                    (sampleOptions GET Absent))
     = [FetchCall "https://www.arcgis.com/sharing/rest/search?f=json&q=parks"
                  {| method := Some GET; body := None |}].
Proof.
  split.
  - refine (proj1 (proj1 (token_injected_before_encoding
                     (sampleFetch VNull) sampleUrl (Some [("q", VStr "parks")])
                     (sampleOptions GET (Present (Some (sampleAuth "abc"))))
                     (Some GET))
                   (sampleAuth "abc") "abc" eq_refl eq_refl _)).
    discriminate.
  - exact (proj1 (proj1 (proj2 (token_injected_before_encoding
                     (sampleFetch VNull) sampleUrl (Some [("q", VStr "parks")])
                     (sampleOptions GET Absent) (Some GET)))
                   eq_refl)).
Defined.

(** C10: a provider whose token is the empty string changes nothing in the
    request: the [fetch] call and the result are those of the same
    dispatch with no provider, built from the merged parameters as they
    are; only the token resolution precedes it. *)
Theorem empty_token_same_request
        (fetch : string -> RequestInit -> Settled Response)
        (url : string) (rp : option IParams) (ro ro' : option IRequestOptions)
        (m : option HTTPMethods) (a : IAuthenticationManager) :
  effectiveOptions ro = (m, Some a) ->
  getToken a url = Fulfilled "" ->
  effectiveOptions ro' = (m, None) ->
  networkCalls (calls (request fetch url rp ro))
  = [(targetUrl m url (effectiveParams rp), requestInit m (effectiveParams rp))]
  /\ networkCalls (calls (request fetch url rp ro))
     = networkCalls (calls (request fetch url rp ro'))
  /\ calls (request fetch url rp ro)
     = GetTokenCall url :: calls (request fetch url rp ro')
  /\ outcome (request fetch url rp ro) = outcome (request fetch url rp ro').
Proof.
  intros Ho Ht Ho'.
  pose proof (request_calls fetch url rp ro m (Some a) Ho "" Ht) as Hc.
  pose proof (request_calls fetch url rp ro' m None Ho' "" eq_refl) as Hc'.
  pose proof (request_outcome fetch url rp ro m (Some a) Ho "" Ht) as Hr.
  pose proof (request_outcome fetch url rp ro' m None Ho' "" eq_refl) as Hr'.
  simpl in Hc, Hc', Hr, Hr'.
  rewrite Hc, Hc', Hr, Hr'. repeat split.
Qed.

(** C10 on a search sent with POST. *)
Lemma empty_token_same_request_witness :
  networkCalls (calls (request (sampleFetch VNull) sampleUrl
                               (Some [("q", VStr "parks")])
                               (sampleOptions POST (Present (Some (sampleAuth ""))))))
  = [(sampleUrl,
      {| method := Some POST;
         body := Some [("f", StringPart "json"); ("q", StringPart "parks")] |})].
Proof.
  exact (proj1 (empty_token_same_request
                  (sampleFetch VNull) sampleUrl (Some [("q", VStr "parks")])
                  (sampleOptions POST (Present (Some (sampleAuth ""))))
                  (sampleOptions POST Absent) (Some POST) (sampleAuth "")
                  eq_refl eq_refl eq_refl)).
Defined.

(** C6: the effective parameters are [{f: "json"}] with the caller's
    parameters spread over it, so each property reads as the caller gave
    it and as the default otherwise; the effective options are the method
    POST and no provider with the caller's options spread over them, field
    by field.  Left out, the parameters are [{f: "json"}] and the options
    are POST without a provider, and the dispatch is built from these
    effective values. *)
Theorem defaults_shallow_merged :
  (forall (p : IParams) (k : string),
      wellFormed p ->
      Obj.get k (effectiveParams (Some p))
      = match Obj.get k p with
        | Some v => Some v
        | None => Obj.get k [("f", VStr "json")]
        end)
  /\ effectiveParams None = [("f", VStr "json")]
  /\ (forall o : IRequestOptions,
         effectiveOptions (Some o)
         = (match httpMethod o with
            | Absent => Some POST
            | Present v => v
            end,
            match authentication o with
            | Absent => None
            | Present v => v
            end))
  /\ effectiveOptions None = (Some POST, None)
  /\ (forall fetch url rp ro token,
         outcome (tokenRequest (snd (effectiveOptions ro)) url) = Fulfilled token ->
         let params := withToken token (effectiveParams rp) in
         networkCalls (calls (request fetch url rp ro))
         = [(targetUrl (fst (effectiveOptions ro)) url params,
             requestInit (fst (effectiveOptions ro)) params)])
  /\ (forall fetch url,
         calls (request fetch url None None)
         = [FetchCall url {| method := Some POST;
                             body := Some [("f", StringPart "json")] |}]).
Proof.
  split; [|split; [|split; [|split; [|split]]]].
  - intros p k Hwf. unfold effectiveParams. now apply ObjFacts.get_assign.
  - reflexivity.
  - intros o. reflexivity.
  - reflexivity.
  - intros fetch url rp ro token Ht params.
    apply (request_network_calls fetch url rp ro _ _ (surjective_pairing _) token Ht).
  - intros fetch url.
    exact (request_calls fetch url None None (Some POST) None eq_refl "" eq_refl).
Qed.

(** C6 on a caller who overrides the format, adds a query and leaves the
    options out. *)
Lemma defaults_shallow_merged_witness :
  Obj.get "f" (effectiveParams (Some [("q", VStr "parks"); ("f", VStr "html")]))
  = Some (VStr "html")
  /\ Obj.get "f" (effectiveParams (Some [("q", VStr "parks")])) = Some (VStr "json")
  /\ effectiveOptions None = (Some POST, None).
Proof.
  split; [|split].
  - refine (proj1 defaults_shallow_merged
                  [("q", VStr "parks"); ("f", VStr "html")] "f" _).
    repeat constructor; simpl; intuition discriminate.
  - refine (proj1 defaults_shallow_merged [("q", VStr "parks")] "f" _).
    repeat constructor; simpl; intuition discriminate.
  - exact (proj1 (proj2 (proj2 (proj2 defaults_shallow_merged)))).
Defined.

(** C9: [generateToken] with a username and a password calls [fetch]
    exactly once, at the given URL, with POST and a form of the three
    fields [f=json], [username] and [password]; when the transport answers
    with a JSON body that has no [error] member, the result is that body,
    so its [token] and [expires] are those of the response. *)
Theorem generateToken_single_call
        (fetch : string -> RequestInit -> Settled Response)
        (url username password : string) :
  let form := [("f", StringPart "json"); ("username", StringPart username);
               ("password", StringPart password)] in
  let init := {| method := Some POST; body := Some form |} in
  calls (generateToken fetch url username password) = [FetchCall url init]
  /\ (forall (resp : Response) (body : JsObject),
         fetch url init = Fulfilled resp ->
         json resp = Fulfilled (VObj body) ->
         Obj.get "error" body = None ->
         outcome (generateToken fetch url username password) = Fulfilled (VObj body)
         /\ (forall result, outcome (generateToken fetch url username password)
                            = Fulfilled (VObj result) ->
                            Obj.get "token" result = Obj.get "token" body
                            /\ Obj.get "expires" result = Obj.get "expires" body)).
Proof.
  intros form init. unfold generateToken.
  set (rp := Some [("username", VStr username); ("password", VStr password)]).
  split.
  - exact (request_calls fetch url rp None (Some POST) None eq_refl "" eq_refl).
  - intros resp body Hf Hjson Herr.
    assert (Hout : outcome (request fetch url rp None) = Fulfilled (VObj body)).
    { rewrite (dispatch_json fetch url rp None (Some POST) None "" resp
                             eq_refl eq_refl Hf (or_introl eq_refl)).
      rewrite Hjson. unfold checkForErrors. now rewrite Herr. }
    split; [exact Hout|].
    intros result Hres. rewrite Hout in Hres. now inversion Hres.
Qed.

(** C9 on the credentials of the test, Casey and Jones. *)
Lemma generateToken_single_call_witness :
  outcome (generateToken
             (sampleFetch (VObj [("token", VStr "token"); ("expires", VNum 1700000000000)]))
             "https://www.arcgis.com/sharing/rest/generateToken" "Casey" "Jones")
  = Fulfilled (VObj [("token", VStr "token"); ("expires", VNum 1700000000000)]).
Proof.
  exact (proj1 (proj2 (generateToken_single_call
                  (sampleFetch (VObj [("token", VStr "token");
                                      ("expires", VNum 1700000000000)]))
                  "https://www.arcgis.com/sharing/rest/generateToken" "Casey" "Jones")
                (jsonResponse (VObj [("token", VStr "token");
                                     ("expires", VNum 1700000000000)]))
                [("token", VStr "token"); ("expires", VNum 1700000000000)]
                eq_refl eq_refl eq_refl)).
Defined.


(** ** Further properties of the dispatcher *)

Lemma keys_set {A} k (v : A) o :
  map fst (Obj.set k v o)
  = match Obj.get k o with
    | Some _ => map fst o
    | None => (map fst o ++ [k])%list
    end.
Proof.
  induction o as [|[k' v'] rest IH]; simpl; [reflexivity|].
  destruct (String.eqb k k') eqn:E; simpl; [reflexivity|].
  rewrite IH. now destruct (Obj.get k rest).
Qed.

Lemma set_keeps_unique {A} k (v : A) o :
  NoDup (map fst o) -> NoDup (map fst (Obj.set k v o)).
Proof.
  intros Hnd. rewrite keys_set. destruct (Obj.get k o) eqn:E; [exact Hnd|].
  apply ObjFacts.get_none_not_in in E.
  apply (Permutation_NoDup (Permutation_cons_append (map fst o) k)).
  now constructor.
Qed.

Lemma assign_keeps_unique {A} (target source : list (string * A)) :
  NoDup (map fst target) -> NoDup (map fst (Obj.assign target source)).
Proof.
  unfold Obj.assign. generalize (Obj.ownEntries source) as l.
  intros l. revert target.
  induction l as [|[k v] rest IH]; simpl; intros target Hnd; auto.
  apply IH, set_keeps_unique, Hnd.
Qed.

Lemma set_keeps_property {A} k k' (v : A) o :
  Obj.get k o <> None -> Obj.get k (Obj.set k' v o) <> None.
Proof.
  intros H. destruct (string_dec k k') as [<- | Hne].
  - rewrite ObjFacts.get_set_same. discriminate.
  - now rewrite ObjFacts.get_set_other.
Qed.

Lemma assign_keeps_property {A} k (target source : list (string * A)) :
  Obj.get k target <> None -> Obj.get k (Obj.assign target source) <> None.
Proof.
  unfold Obj.assign. generalize (Obj.ownEntries source) as l.
  intros l. revert target.
  induction l as [|[k' v] rest IH]; simpl; intros target H; auto.
  apply IH, set_keeps_property, H.
Qed.

Lemma checkDecoded_rejected params data r :
  outcome (checkDecoded params data) = Rejected r
  <-> (Obj.get "f" params = Some (VStr "json")
       \/ Obj.get "f" params = Some (VStr "geojson"))
      /\ checkForErrors data = Rejected r.
Proof.
  split.
  - intros H.
    destruct (strictEq (Obj.get "f" params) "json") eqn:E1;
      [apply strictEq_true in E1 |
       destruct (strictEq (Obj.get "f" params) "geojson") eqn:E2;
       [apply strictEq_true in E2 | apply strictEq_false in E1, E2]].
    + rewrite checkDecoded_json in H by auto.
      split; [auto|]. destruct (checkForErrors data); [discriminate H | exact H].
    + rewrite checkDecoded_json in H by auto.
      split; [auto|]. destruct (checkForErrors data); [discriminate H | exact H].
    + rewrite checkDecoded_other in H by assumption. discriminate H.
  - intros [Hf Hc]. rewrite checkDecoded_json by exact Hf. now rewrite Hc.
Qed.

(** X1: when the transport rejects the one [fetch] call, the dispatch
    rejects with the very reason the transport gave, and no further call
    is made: nothing is retried and nothing is translated. *)
Theorem transport_failure_propagates
        (fetch : string -> RequestInit -> Settled Response)
        (url : string) (rp : option IParams) (ro : option IRequestOptions)
        (m : option HTTPMethods) (a : option IAuthenticationManager)
        (token : string) (r : Reason) :
  effectiveOptions ro = (m, a) ->
  outcome (tokenRequest a url) = Fulfilled token ->
  let params := withToken token (effectiveParams rp) in
  fetch (targetUrl m url params) (requestInit m params) = Rejected r ->
  outcome (request fetch url rp ro) = Rejected r
  /\ networkCalls (calls (request fetch url rp ro))
     = [(targetUrl m url params, requestInit m params)].
Proof.
  intros Ho Ht params Hf. split.
  - rewrite (request_outcome fetch url rp ro m a Ho token Ht).
    fold params. now rewrite Hf.
  - apply (request_network_calls fetch url rp ro m a Ho token Ht).
Qed.

(** X1 on a transport that is down. *)
Lemma transport_failure_propagates_witness :
  outcome (request (fun _ _ => Rejected (Thrown (VStr "Failed to fetch")))
                   sampleUrl (Some [("q", VStr "parks")]) None)
  = Rejected (Thrown (VStr "Failed to fetch")).
Proof.
  exact (proj1 (transport_failure_propagates
                  (fun _ _ => Rejected (Thrown (VStr "Failed to fetch")))
                  sampleUrl (Some [("q", VStr "parks")]) None
                  (Some POST) None "" (Thrown (VStr "Failed to fetch"))
                  eq_refl eq_refl eq_refl)).
Defined.

(** X2: options that hold [httpMethod: undefined] replace the default
    POST by [undefined]; then neither encoding runs, and the one [fetch]
    call goes to the URL as given, with no body: the parameters, and the
    token with them, are not sent at all. *)
Theorem undefined_method_sends_no_params
        (fetch : string -> RequestInit -> Settled Response)
        (url : string) (rp : option IParams) (o : IRequestOptions)
        (token : string) :
  httpMethod o = Present None ->
  outcome (tokenRequest (snd (effectiveOptions (Some o))) url) = Fulfilled token ->
  fst (effectiveOptions (Some o)) = None
  /\ networkCalls (calls (request fetch url rp (Some o)))
     = [(url, {| method := None; body := None |})].
Proof.
  intros Hm Ht.
  assert (Hnone : fst (effectiveOptions (Some o)) = None)
    by (simpl; now rewrite Hm).
  split; [exact Hnone|].
  rewrite (request_network_calls fetch url rp (Some o) _ _
                                 (surjective_pairing _) token Ht).
  now rewrite Hnone.
Qed.

(** X2 on a search whose options hold [httpMethod: undefined] and a
    provider. *)
Lemma undefined_method_sends_no_params_witness :
  networkCalls
    (calls (request (sampleFetch VNull) sampleUrl (Some [("q", VStr "parks")])
                    (Some {| httpMethod := Present None;
                             authentication := Present (Some (sampleAuth "abc")) |})))
  = [(sampleUrl, {| method := None; body := None |})].
Proof.
  exact (proj2 (undefined_method_sends_no_params
                  (sampleFetch VNull) sampleUrl (Some [("q", VStr "parks")])
                  {| httpMethod := Present None;
                     authentication := Present (Some (sampleAuth "abc")) |}
                  "abc" eq_refl eq_refl)).
Defined.

(** X3: the calls of a dispatch are, in this order, one token resolution
    at the URL as given when there is a provider, and one [fetch] call
    when the token was resolved; so a dispatch never calls [fetch] more
    than once, and never calls it after a failed token resolution. *)
Theorem dispatch_trace
        (fetch : string -> RequestInit -> Settled Response)
        (url : string) (rp : option IParams) (ro : option IRequestOptions)
        (m : option HTTPMethods) (a : option IAuthenticationManager) :
  effectiveOptions ro = (m, a) ->
  calls (request fetch url rp ro)
  = (match a with
     | Some _ => [GetTokenCall url]
     | None => []
     end
     ++ match outcome (tokenRequest a url) with
        | Fulfilled token =>
            [FetchCall (targetUrl m url (withToken token (effectiveParams rp)))
                       (requestInit m (withToken token (effectiveParams rp)))]
        | Rejected _ => []
        end)%list
  /\ (length (networkCalls (calls (request fetch url rp ro))) <= 1)%nat.
Proof.
  intros Ho.
  assert (Hcalls : calls (tokenRequest a url)
                   = match a with Some _ => [GetTokenCall url] | None => [] end)
    by now destruct a.
  destruct (outcome (tokenRequest a url)) as [token|r] eqn:Ht.
  - split.
    + rewrite (request_calls fetch url rp ro m a Ho token Ht). now rewrite Hcalls.
    + rewrite (request_network_calls fetch url rp ro m a Ho token Ht).
      simpl. constructor.
  - destruct (request_token_rejected fetch url rp ro m a Ho r Ht) as [Hc _].
    rewrite Hc. split.
    + rewrite Hcalls. now rewrite app_nil_r.
    + rewrite tokenRequest_no_fetch. simpl. auto.
Qed.

(** X3 on a provider that fails: the token resolution is the only call. *)
Lemma dispatch_trace_witness :
  calls (request (sampleFetch VNull) sampleUrl None
                 (Some {| httpMethod := Absent;
                          authentication :=
                            Present (Some {| getToken := fun _ =>
                                               Rejected (Thrown (VStr "no session")) |}) |}))
  = [GetTokenCall sampleUrl].
Proof.
  exact (proj1 (dispatch_trace
                  (sampleFetch VNull) sampleUrl None
                  (Some {| httpMethod := Absent;
                           authentication :=
                             Present (Some {| getToken := fun _ =>
                                                Rejected (Thrown (VStr "no session")) |}) |})
                  (Some POST)
                  (Some {| getToken := fun _ => Rejected (Thrown (VStr "no session")) |})
                  eq_refl)).
Defined.

(** X4: a dispatch rejects with a reason in exactly four ways: the token
    resolution rejected with it, the [fetch] call rejected with it, the
    body reader chosen by the format rejected with it, or the format is
    ["json"] or ["geojson"] and the error check threw it on the decoded
    body.  In every other case the dispatch is fulfilled. *)
Theorem rejection_taxonomy
        (fetch : string -> RequestInit -> Settled Response)
        (url : string) (rp : option IParams) (ro : option IRequestOptions)
        (m : option HTTPMethods) (a : option IAuthenticationManager)
        (r : Reason) :
  effectiveOptions ro = (m, a) ->
  let params := fun token => withToken token (effectiveParams rp) in
  let sent := fun token =>
    fetch (targetUrl m url (params token)) (requestInit m (params token)) in
  outcome (request fetch url rp ro) = Rejected r
  <-> (outcome (tokenRequest a url) = Rejected r
       \/ (exists token,
              outcome (tokenRequest a url) = Fulfilled token
              /\ sent token = Rejected r)
       \/ (exists token resp,
              outcome (tokenRequest a url) = Fulfilled token
              /\ sent token = Fulfilled resp
              /\ outcome (decodeResponse (params token) resp) = Rejected r)
       \/ (exists token resp data,
              outcome (tokenRequest a url) = Fulfilled token
              /\ sent token = Fulfilled resp
              /\ outcome (decodeResponse (params token) resp) = Fulfilled data
              /\ (Obj.get "f" (effectiveParams rp) = Some (VStr "json")
                  \/ Obj.get "f" (effectiveParams rp) = Some (VStr "geojson"))
              /\ checkForErrors data = Rejected r)).
Proof.
  intros Ho params sent.
  destruct (outcome (tokenRequest a url)) as [token|r0] eqn:Ht.
  - rewrite (request_outcome fetch url rp ro m a Ho token Ht).
    change (fetch (targetUrl m url (withToken token (effectiveParams rp)))
                  (requestInit m (withToken token (effectiveParams rp))))
      with (sent token).
    change (withToken token (effectiveParams rp)) with (params token).
    destruct (sent token) as [resp|r1] eqn:Hs.
    + destruct (outcome (decodeResponse (params token) resp)) as [data|r2] eqn:Hd.
      * assert (Hfmt : Obj.get "f" (params token) = Obj.get "f" (effectiveParams rp))
          by apply withToken_format.
        cbv beta iota. rewrite checkDecoded_rejected, Hfmt. split.
        -- intros [Hf Hc]. right. right. right.
           exists token, resp, data. repeat split; auto; congruence.
        -- intros H. decompose [or ex and] H; clear H; try congruence.
           ++ split; [left; assumption | congruence].
           ++ split; [right; assumption | congruence].
      * cbv beta iota. split.
        -- intros H. right. right. left. exists token, resp. repeat split; congruence.
        -- intros H. decompose [or ex and] H; clear H; congruence.
    + cbv beta iota. split.
      * intros H. right. left. exists token. repeat split; congruence.
      * intros H. decompose [or ex and] H; clear H; congruence.
  - destruct (request_token_rejected fetch url rp ro m a Ho r0 Ht) as [_ Hr].
    rewrite Hr. split.
    + intros H. left. congruence.
    + intros H. decompose [or ex and] H; clear H; congruence.
Qed.

(** X4 on a response whose body is not JSON: the reader's rejection is the
    dispatch's. *)
Lemma rejection_taxonomy_witness :
  outcome (request (fun _ _ => Fulfilled {| json := Rejected (Thrown (VStr "SyntaxError"));
                                            text := Fulfilled "<html>";
                                            blob := Fulfilled "<html>" |})
                   sampleUrl None None)
  = Rejected (Thrown (VStr "SyntaxError")).
Proof.
  refine (proj2 (rejection_taxonomy
                   (fun _ _ => Fulfilled {| json := Rejected (Thrown (VStr "SyntaxError"));
                                            text := Fulfilled "<html>";
                                            blob := Fulfilled "<html>" |})
                   sampleUrl None None (Some POST) None
                   (Thrown (VStr "SyntaxError")) eq_refl) _).
  right. right. left.
  exists "", {| json := Rejected (Thrown (VStr "SyntaxError"));
                text := Fulfilled "<html>"; blob := Fulfilled "<html>" |}.
  repeat split.
Defined.

(** X5: whatever the caller passes, the parameters a dispatch encodes hold
    each property once and hold [f]; with the parameters left out, [f] is
    ["json"]. *)
Theorem merged_params_invariant (rp : option IParams) (token : string) :
  wellFormed (withToken token (effectiveParams rp))
  /\ Obj.get "f" (withToken token (effectiveParams rp)) <> None
  /\ Obj.get "f" (withToken token (effectiveParams None)) = Some (VStr "json").
Proof.
  assert (Hwf : wellFormed (effectiveParams rp)).
  { apply assign_keeps_unique. simpl. repeat constructor. intros []. }
  split; [|split].
  - destruct token; [exact Hwf|]. now apply set_keeps_unique.
  - rewrite withToken_format. apply assign_keeps_property. discriminate.
  - now rewrite withToken_format.
Qed.

(** X6: a non-empty token of the provider takes the place of a [token]
    the caller passed, where that one stood and without a second [token]
    property; an empty one leaves the caller's [token] as it is; and no
    other parameter is touched either way. *)
Theorem provider_token_overrides (p : IParams) (token : string) :
  wellFormed p ->
  let merged := effectiveParams (Some p) in
  (token <> "" -> Obj.get "token" (withToken token merged) = Some (VStr token))
  /\ (token <> "" -> Obj.get "token" p <> None ->
      map fst (withToken token merged) = map fst merged)
  /\ (token = "" -> Obj.get "token" (withToken token merged) = Obj.get "token" p)
  /\ (forall k, k <> "token" ->
                Obj.get k (withToken token merged) = Obj.get k merged).
Proof.
  intros Hwf merged.
  assert (Hget : forall k, Obj.get k merged
                           = match Obj.get k p with
                             | Some v => Some v
                             | None => Obj.get k [("f", VStr "json")]
                             end)
    by (intros k; apply ObjFacts.get_assign, Hwf).
  split; [|split; [|split]].
  - intros Hne. destruct token; [congruence|]. apply ObjFacts.get_set_same.
  - intros Hne Hp. destruct token; [congruence|]. simpl withToken.
    rewrite keys_set, Hget. now destruct (Obj.get "token" p).
  - intros ->. simpl withToken. rewrite Hget. now destruct (Obj.get "token" p).
  - intros k Hk. destruct token; [reflexivity|].
    now apply ObjFacts.get_set_other.
Qed.

(** X6 on a caller who passes a stale token and a provider that gives a
    fresh one. *)
Lemma provider_token_overrides_witness :
  withToken "fresh" (effectiveParams (Some [("token", VStr "stale"); ("q", VStr "parks")]))
  = [("f", VStr "json"); ("token", VStr "fresh"); ("q", VStr "parks")]
  /\ Obj.get "token"
             (withToken "fresh"
                (effectiveParams (Some [("token", VStr "stale"); ("q", VStr "parks")])))
     = Some (VStr "fresh").
Proof.
  split; [reflexivity|].
  refine (proj1 (provider_token_overrides
                   [("token", VStr "stale"); ("q", VStr "parks")] "fresh" _) _).
  - repeat constructor; simpl; intuition discriminate.
  - discriminate.
Defined.

(** X7: an [f] the caller passes replaces the default ["json"] whatever its
    value; when that value is none of the six formats, [undefined]
    included, no body reader is called and a dispatch whose token and
    [fetch] succeeded resolves with [undefined]. *)
Theorem caller_format_replaces_default
        (fetch : string -> RequestInit -> Settled Response)
        (url : string) (p : IParams) (ro : option IRequestOptions)
        (m : option HTTPMethods) (a : option IAuthenticationManager)
        (token : string) (resp : Response) (v : Value) :
  wellFormed p ->
  Obj.get "f" p = Some v ->
  effectiveOptions ro = (m, a) ->
  outcome (tokenRequest a url) = Fulfilled token ->
  let params := withToken token (effectiveParams (Some p)) in
  fetch (targetUrl m url params) (requestInit m params) = Fulfilled resp ->
  Obj.get "f" params = Some v
  /\ ((forall s, In s ResponseFormats -> v <> VStr s) ->
      outcome (request fetch url (Some p) ro) = Fulfilled VUndefined).
Proof.
  intros Hwf Hv Ho Ht params Hf.
  assert (Hfmt : Obj.get "f" (effectiveParams (Some p)) = Some v)
    by (unfold effectiveParams; rewrite ObjFacts.get_assign by exact Hwf;
        now rewrite Hv).
  split.
  - unfold params. now rewrite withToken_format.
  - intros Hnone.
    assert (Hno : forall s, In s ResponseFormats ->
                            Obj.get "f" (effectiveParams (Some p)) <> Some (VStr s))
      by (intros s Hs; rewrite Hfmt; intros E; injection E as E;
          now apply (Hnone s Hs)).
    rewrite (dispatch_unchecked fetch url (Some p) ro m a token resp Ho Ht Hf)
      by (apply Hno; simpl; tauto).
    rewrite decodeResponse_unmatched; [reflexivity|].
    intros s Hs. rewrite withToken_format. now apply Hno.
Qed.

(** X7 on a caller who passes [f: undefined] to a server that answers with
    a JSON error body: the result is [undefined], not a rejection. *)
Lemma caller_format_replaces_default_witness :
  outcome (request (sampleFetch sampleErrorBody) sampleUrl
                   (Some [("f", VUndefined); ("q", VStr "parks")]) None)
  = Fulfilled VUndefined.
Proof.
  refine (proj2 (caller_format_replaces_default
                   (sampleFetch sampleErrorBody) sampleUrl
                   [("f", VUndefined); ("q", VStr "parks")] None
                   (Some POST) None "" (jsonResponse sampleErrorBody) VUndefined
                   _ eq_refl eq_refl eq_refl eq_refl) _).
  - repeat constructor; simpl; intuition discriminate.
  - intros s _. discriminate.
Defined.
